(** * ci/filter_imports.py: the import filter of the CI scripts

    The script iterates over the lines that [fileinput.input()] yields and
    copies each one to standard output, except for the lines that start with
    [import] and do not contain [import Foundation].

    Text is modelled as [string] (a sequence of bytes), a line keeps the
    terminator it is read with, standard output is the sequence of the
    chunks written to it and the iteration over the input is a list of
    events: a line, or the error that a source raises when it cannot be
    opened or read.  Standard input is read as it is; a named file is read
    in text mode, with universal newlines. *)

From Stdlib Require Import Strings.String Strings.Ascii Lists.List Bool.Bool.
From Stdlib Require Import Arith.PeanoNat micromega.Lia.
Import ListNotations.

Local Open Scope string_scope.
Local Open Scope list_scope.
Local Open Scope bool_scope.

Infix "+:+" := String.append (at level 60, right associativity).

(** ** Python's string tests *)

Module Str.

(** [s.startswith(p)] *)
Fixpoint startswith (s p : string) {struct p} : bool :=
  match p with
  | EmptyString => true
  | String b p' =>
      match s with
      | EmptyString => false
      | String a s' => Ascii.eqb a b && startswith s' p'
      end
  end.

(** [sub in s]: [sub] starts at some position of [s] *)
Fixpoint contains (sub s : string) : bool :=
  startswith s sub ||
  match s with
  | EmptyString => false
  | String _ s' => contains sub s'
  end.

(** The bytes of a sequence of chunks, one after the other. *)
Fixpoint join (chunks : list string) : string :=
  match chunks with
  | [] => EmptyString
  | c :: rest => c +:+ join rest
  end.

Definition LF : ascii := "010"%char.
Definition CR : ascii := "013"%char.

(** The members of Python's [string.whitespace]. *)
Definition isspace (c : ascii) : bool :=
  Ascii.eqb c " "%char || Ascii.eqb c "009"%char || Ascii.eqb c LF ||
  Ascii.eqb c CR || Ascii.eqb c "011"%char || Ascii.eqb c "012"%char.

Fixpoint all_space (s : string) : bool :=
  match s with
  | EmptyString => true
  | String c s' => isspace c && all_space s'
  end.

(** No byte of [s] is a line feed or a carriage return. *)
Fixpoint no_eol (s : string) : bool :=
  match s with
  | EmptyString => true
  | String c s' => negb (Ascii.eqb c LF) && negb (Ascii.eqb c CR) && no_eol s'
  end.

(** No byte of [s] is a carriage return. *)
Fixpoint no_cr (s : string) : bool :=
  match s with
  | EmptyString => true
  | String c s' => negb (Ascii.eqb c CR) && no_cr s'
  end.

(** The content of a line: the line without the line feeds and carriage
    returns that end it. *)
Fixpoint content (l : string) : string :=
  match l with
  | EmptyString => EmptyString
  | String c t =>
      match content t with
      | EmptyString =>
          if Ascii.eqb c LF || Ascii.eqb c CR then EmptyString
          else String c EmptyString
      | String _ _ as r => String c r
      end
  end.

End Str.

(** ** The input iterator *)

Module FileInput.
Import Str.

(** Iterating over a text stream: a line ends after each line feed and keeps
    it; what follows the last line feed, when not empty, is a last line with
    no terminator. *)
Fixpoint readlines (text : string) : list string :=
  match text with
  | EmptyString => []
  | String c t =>
      if Ascii.eqb c LF then String c EmptyString :: readlines t
      else
        match readlines t with
        | [] => [String c EmptyString]
        | l :: ls => String c l :: ls
        end
  end.

(** The two shapes of a line that [readlines] produces: ended by its only
    line feed, or not empty and with no line feed (the last one only). *)
Fixpoint complete (l : string) : bool :=
  match l with
  | EmptyString => false
  | String c t =>
      if Ascii.eqb c LF then
        match t with EmptyString => true | String _ _ => false end
      else complete t
  end.

Fixpoint partial (l : string) : bool :=
  match l with
  | EmptyString => false
  | String c t =>
      negb (Ascii.eqb c LF) &&
      match t with EmptyString => true | String _ _ => partial t end
  end.

Fixpoint well_split (ls : list string) : bool :=
  match ls with
  | [] => true
  | l :: rest =>
      match rest with
      | [] => complete l || partial l
      | _ :: _ => complete l && well_split rest
      end
  end.

(** What [open(name, 'r')] does to the line ends of a named file: a
    carriage return before a line feed is left out and any other carriage
    return is read as a line feed. *)
Fixpoint universal_newlines (t : string) : string :=
  match t with
  | EmptyString => EmptyString
  | String c t' =>
      if Ascii.eqb c CR then
        match t' with
        | EmptyString => String LF EmptyString
        | String c' _ =>
            if Ascii.eqb c' LF then universal_newlines t'
            else String LF (universal_newlines t')
        end
      else String c (universal_newlines t')
  end.

(** The lines of a named file. *)
Definition readfile (text : string) : list string :=
  readlines (universal_newlines text).

(** A source named on the command line, as the script finds it: a file
    that opens and decodes, with its bytes; a file that cannot be opened;
    the name [-], which stands for standard input; a file of which the
    reading raises (an I/O error, bytes that do not decode) after it gave
    some lines. *)
Inductive source : Type :=
| Readable (text : string)
| Unreadable
| Dash
| Garbled (before : list string).

(** What one step of the iteration does: it yields a line or raises. *)
Inductive event : Type :=
| Yield (line : string)
| IOError.

Record environment : Type := mkEnv {
  argv : list source;   (* sys.argv[1:] *)
  stdin : string        (* what standard input holds, a text that decodes *)
}.

(** The events of one source, and what is left of standard input after
    it: standard input is read to its end the first time it is named. *)
Definition events_of (src : source) (sin : string) : list event * string :=
  match src with
  | Readable text => (map Yield (readfile text), sin)
  | Unreadable => ([IOError], sin)
  | Dash => (map Yield (readlines sin), EmptyString)
  | Garbled before => (map Yield before ++ [IOError], sin)
  end.

Fixpoint events (srcs : list source) (sin : string) : list event :=
  match srcs with
  | [] => []
  | src :: rest =>
      fst (events_of src sin) ++ events rest (snd (events_of src sin))
  end.

(** [fileinput.input()]: the lines of the named sources in the order of the
    command line, a source being opened when the one before it is exhausted;
    with no name on the command line, the one source [-]. *)
Definition input (e : environment) : list event :=
  match argv e with
  | [] => events [Dash] (stdin e)
  | _ :: _ => events (argv e) (stdin e)
  end.

Definition from_stdin (text : string) : environment := mkEnv [] text.

End FileInput.

(** ** The script *)

Module FilterImports.
Import Str FileInput.

(** How the process ends: exit code 0, or the traceback of an exception
    nothing caught. *)
Inductive outcome : Type :=
| Exit0
| Uncaught.

(** The body of the loop; [stdout] is the sequence of the chunks written so
    far and [sys.stdout.write(line)] adds one. *)
Definition body (line : string) (stdout : list string) : list string :=
  if startswith line "import" then
    if contains "import Foundation" line then stdout ++ [line]
    else stdout
  else stdout ++ [line].

(** [for line in fileinput.input(): ...], with no handler around it. *)
Fixpoint for_loop (it : list event) (stdout : list string)
  : outcome * list string :=
  match it with
  | [] => (Exit0, stdout)
  | Yield line :: it' => for_loop it' (body line stdout)
  | IOError :: _ => (Uncaught, stdout)
  end.

Definition main (e : environment) : outcome * list string :=
  for_loop (input e) [].

(** The chunks written for a sequence of lines, and the bytes a run leaves
    on standard output. *)
Definition filter_lines (lines : list string) : list string :=
  snd (for_loop (map Yield lines) []).

Definition stdout_bytes (e : environment) : string :=
  join (snd (main e)).

End FilterImports.

(** ** Order-preserving selection *)

Inductive Subseq {A : Type} : list A -> list A -> Prop :=
| Subseq_nil : Subseq [] []
| Subseq_keep x l1 l2 : Subseq l1 l2 -> Subseq (x :: l1) (x :: l2)
| Subseq_drop x l1 l2 : Subseq l1 l2 -> Subseq l1 (x :: l2).

(** The decision of the loop body on one line, read off [body]. *)
Definition kept (line : string) : bool :=
  match FilterImports.body line [] with
  | [] => false
  | _ :: _ => true
  end.

Import Str FileInput FilterImports.

(** The lines an iteration yields before it ends or raises, and whether it
    raises. *)
Fixpoint lines_read (it : list event) : list string :=
  match it with
  | Yield l :: it' => l :: lines_read it'
  | _ => []
  end.

Fixpoint raises (it : list event) : bool :=
  match it with
  | [] => false
  | Yield _ :: it' => raises it'
  | IOError :: _ => true
  end.

(** A line of text with its line feed. *)
Definition ln (s : string) : string := s +:+ String LF EmptyString.

(** A text that is empty or ends with a line feed, so that what follows it
    starts a line of its own; and a sequence of texts of which each one but
    the last is such a text. *)
Fixpoint ends_lf (t : string) : bool :=
  match t with
  | EmptyString => true
  | String c t' =>
      match t' with
      | EmptyString => Ascii.eqb c LF
      | String _ _ => ends_lf t'
      end
  end.

Fixpoint cat_safe (texts : list string) : bool :=
  match texts with
  | [] => true
  | t :: rest =>
      match rest with
      | [] => true
      | _ :: _ => ends_lf t && cat_safe rest
      end
  end.

(** ** The string tests do what their names say *)

Section StringTests.

Lemma startswith_spec (s p : string) :
  startswith s p = true <-> exists r, s = p +:+ r.
Proof.
  revert s; induction p as [|b p IH]; intros s; simpl.
  - split; [intros _; now exists s | reflexivity].
  - destruct s as [|a s].
    + split; [discriminate | intros [r Hr]; discriminate].
    + rewrite andb_true_iff, Ascii.eqb_eq, IH. split.
      * intros [-> [r ->]]. now exists r.
      * intros [r Hr]. injection Hr as -> ->. split; [reflexivity | now exists r].
Qed.

Lemma startswith_app (p r : string) : startswith (p +:+ r) p = true.
Proof. apply startswith_spec. now exists r. Qed.

Lemma contains_spec (sub s : string) :
  contains sub s = true <-> exists a b, s = a +:+ sub +:+ b.
Proof.
  induction s as [|c s IH]; simpl.
  - rewrite orb_false_r, startswith_spec. split.
    + intros [r Hr]. now exists EmptyString, r.
    + intros [[|a0 a] [b Hb]]; [now exists b | discriminate].
  - rewrite orb_true_iff, IH, startswith_spec. split.
    + intros [[r Hr] | [a [b Hab]]].
      * now exists EmptyString, r.
      * exists (String c a), b. simpl. now rewrite Hab.
    + intros [[|a0 a] [b Hb]].
      * left. now exists b.
      * right. simpl in Hb. injection Hb as _ ->. now exists a, b.
Qed.

Lemma startswith_contains (s p : string) :
  startswith s p = true -> contains p s = true.
Proof. intros H. destruct s; simpl; rewrite H; reflexivity. Qed.

(** A test for a literal with no line end in it gives the same answer on
    the content of a line as on the line. *)
Lemma startswith_content (p l : string) :
  no_eol p = true -> startswith (content l) p = startswith l p.
Proof.
  revert l; induction p as [|b p IH]; intros l Hp; [reflexivity|].
  simpl in Hp. apply andb_true_iff in Hp as [Hb Hp].
  apply andb_true_iff in Hb as [Hlf Hcr].
  apply negb_true_iff in Hlf, Hcr.
  destruct l as [|c t]; [reflexivity|].
  specialize (IH t Hp). simpl.
  destruct (content t) as [|c' r] eqn:Ec.
  - assert (Ht : startswith t p = startswith EmptyString p) by now rewrite <- IH.
    rewrite Ht.
    destruct (Ascii.eqb c LF) eqn:E1; simpl.
    + apply Ascii.eqb_eq in E1; subst c.
      rewrite Ascii.eqb_sym, Hlf. reflexivity.
    + destruct (Ascii.eqb c CR) eqn:E2; simpl.
      * apply Ascii.eqb_eq in E2; subst c.
        rewrite Ascii.eqb_sym, Hcr. reflexivity.
      * reflexivity.
  - simpl. now rewrite IH.
Qed.

Lemma contains_content (sub l : string) :
  sub <> EmptyString -> no_eol sub = true ->
  contains sub (content l) = contains sub l.
Proof.
  intros Hne Hsub. induction l as [|c t IH]; [reflexivity|].
  change (contains sub (String c t))
    with (startswith (String c t) sub || contains sub t).
  rewrite <- (startswith_content sub (String c t) Hsub), <- IH.
  simpl. destruct (content t) as [|c' r] eqn:Ec.
  - assert (Hemp : startswith EmptyString sub = false)
      by (destruct sub; [congruence | reflexivity]).
    destruct (Ascii.eqb c LF || Ascii.eqb c CR); simpl;
      rewrite ?Hemp, ?orb_false_r; reflexivity.
  - reflexivity.
Qed.

Lemma all_space_not_import (l : string) :
  all_space l = true -> startswith l "import" = false.
Proof. destruct l as [|c t]; [reflexivity|]. simpl.
  intros H. apply andb_true_iff in H as [Hc _].
  destruct (Ascii.eqb c "i") eqn:E; [|reflexivity].
  apply Ascii.eqb_eq in E. subst c. discriminate.
Qed.

End StringTests.

(** ** Reading lines loses nothing *)

Section ReadLines.

Lemma append_empty_r (s : string) : s +:+ EmptyString = s.
Proof. induction s as [|c s IH]; simpl; [reflexivity | now rewrite IH]. Qed.

Lemma append_assoc (a b c : string) : (a +:+ b) +:+ c = a +:+ b +:+ c.
Proof. induction a as [|x a IH]; simpl; [reflexivity | now rewrite IH]. Qed.

Lemma join_app (xs ys : list string) : join (xs ++ ys) = join xs +:+ join ys.
Proof.
  induction xs as [|x xs IH]; simpl; [reflexivity|].
  now rewrite IH, append_assoc.
Qed.

Lemma join_readlines (text : string) : join (readlines text) = text.
Proof.
  induction text as [|c t IH]; simpl; [reflexivity|].
  destruct (Ascii.eqb c LF).
  - simpl. now rewrite IH.
  - destruct (readlines t) as [|l ls]; simpl in *; now rewrite <- IH.
Qed.

Lemma join_flat_map_readlines (texts : list string) :
  join (flat_map readlines texts) = join texts.
Proof.
  induction texts as [|t ts IH]; simpl; [reflexivity|].
  now rewrite join_app, join_readlines, IH.
Qed.

Lemma well_split_grow (c : ascii) (l : string) (ls : list string) :
  Ascii.eqb c LF = false ->
  well_split (l :: ls) = true -> well_split (String c l :: ls) = true.
Proof.
  intros Hc. simpl. rewrite Hc. simpl.
  destruct ls as [|l' ls']; [|exact (fun H => H)].
  destruct l as [|c' l]; [reflexivity | exact (fun H => H)].
Qed.

Lemma well_split_readlines (text : string) : well_split (readlines text) = true.
Proof.
  induction text as [|c t IH]; [reflexivity|].
  simpl. destruct (Ascii.eqb c LF) eqn:Hc.
  - simpl. rewrite Hc. destruct (readlines t); [reflexivity | exact IH].
  - destruct (readlines t) as [|l ls].
    + simpl. rewrite Hc. apply orb_true_r.
    + now apply well_split_grow.
Qed.

Lemma readlines_complete (l text : string) :
  complete l = true -> readlines (l +:+ text) = l :: readlines text.
Proof.
  induction l as [|c t IH]; [discriminate|].
  simpl. destruct (Ascii.eqb c LF).
  - destruct t; [reflexivity | discriminate].
  - intros H. now rewrite (IH H).
Qed.

Lemma readlines_partial (l : string) : partial l = true -> readlines l = [l].
Proof.
  induction l as [|c t IH]; [discriminate|].
  simpl. destruct (Ascii.eqb c LF); [discriminate|]. simpl.
  destruct t as [|c' t']; [reflexivity|].
  intros H. now rewrite (IH H).
Qed.

Lemma readlines_join (ls : list string) :
  well_split ls = true -> readlines (join ls) = ls.
Proof.
  induction ls as [|l rest IH]; [reflexivity|].
  destruct rest as [|l' rest'].
  - simpl. rewrite append_empty_r. intros H.
    destruct (complete l) eqn:Hl.
    + rewrite <- (append_empty_r l) at 1. now rewrite readlines_complete.
    + now apply readlines_partial.
  - intros H. change (complete l && well_split (l' :: rest') = true) in H.
    apply andb_true_iff in H as [Hl Hrest].
    change (join (l :: l' :: rest')) with (l +:+ join (l' :: rest')).
    rewrite (readlines_complete _ _ Hl). now rewrite (IH Hrest).
Qed.

Lemma well_split_filter (f : string -> bool) (ls : list string) :
  well_split ls = true -> well_split (filter f ls) = true.
Proof.
  induction ls as [|l rest IH]; [reflexivity|].
  destruct rest as [|l' rest'].
  - simpl. destruct (f l); [exact (fun H => H) | reflexivity].
  - intros H. change (complete l && well_split (l' :: rest') = true) in H.
    apply andb_true_iff in H as [Hl Hrest]. specialize (IH Hrest).
    change (filter f (l :: l' :: rest'))
      with (if f l then l :: filter f (l' :: rest') else filter f (l' :: rest')).
    destruct (f l); [|exact IH].
    destruct (filter f (l' :: rest')) as [|m ms] eqn:E.
    + simpl. now rewrite Hl.
    + change (complete l && well_split (m :: ms) = true).
      now rewrite Hl, IH.
Qed.

Lemma universal_newlines_id (t : string) :
  no_cr t = true -> universal_newlines t = t.
Proof.
  induction t as [|c t IH]; [reflexivity|].
  cbn [no_cr universal_newlines]. intros H.
  apply andb_true_iff in H as [Hc Ht]. apply negb_true_iff in Hc.
  rewrite Hc. now rewrite (IH Ht).
Qed.



End ReadLines.

(** ** The loop as a selection of lines *)

Section Loop.

Lemma kept_eq (l : string) :
  kept l = negb (startswith l "import") || contains "import Foundation" l.
Proof.
  unfold kept, body.
  destruct (startswith l "import"), (contains "import Foundation" l); reflexivity.
Qed.

Lemma body_kept (l : string) (out : list string) :
  body l out = out ++ (if kept l then [l] else []).
Proof.
  unfold kept, body.
  destruct (startswith l "import"), (contains "import Foundation" l);
    simpl; now rewrite ?app_nil_r.
Qed.

Lemma for_loop_lines (ls : list string) (rest : list event) (out : list string) :
  for_loop (map Yield ls ++ rest) out = for_loop rest (out ++ filter kept ls).
Proof.
  revert out; induction ls as [|l ls IH]; intros out; simpl.
  - now rewrite app_nil_r.
  - rewrite IH, body_kept. destruct (kept l); simpl.
    + now rewrite <- app_assoc.
    + now rewrite app_nil_r.
Qed.

Lemma for_loop_all_lines (ls : list string) (out : list string) :
  for_loop (map Yield ls) out = (Exit0, out ++ filter kept ls).
Proof.
  rewrite <- (app_nil_r (map Yield ls)). now rewrite for_loop_lines.
Qed.

Lemma filter_lines_eq (ls : list string) : filter_lines ls = filter kept ls.
Proof. unfold filter_lines. now rewrite for_loop_all_lines. Qed.

Lemma filter_Subseq {A : Type} (f : A -> bool) (l : list A) :
  Subseq (filter f l) l.
Proof.
  induction l as [|x l IH]; simpl; [constructor|].
  destruct (f x); now constructor.
Qed.

Lemma events_readable_app (texts : list string) (rest : list source) (sin : string) :
  events (map Readable texts ++ rest) sin
  = map Yield (flat_map readfile texts) ++ events rest sin.
Proof.
  induction texts as [|t ts IH]; simpl; [reflexivity|].
  now rewrite IH, map_app, app_assoc.
Qed.

Lemma events_readable (texts : list string) (sin : string) :
  events (map Readable texts) sin = map Yield (flat_map readfile texts).
Proof.
  rewrite <- (app_nil_r (map Readable texts)), events_readable_app.
  apply app_nil_r.
Qed.

Lemma input_stdin (text : string) :
  input (from_stdin text) = map Yield (readlines text).
Proof. unfold input, from_stdin. simpl. apply app_nil_r. Qed.

Lemma input_files (t : string) (ts : list string) (sin : string) :
  input (mkEnv (map Readable (t :: ts)) sin)
  = map Yield (flat_map readfile (t :: ts)).
Proof.
  unfold input. cbn [argv map].
  change (Readable t :: map Readable ts) with (map Readable (t :: ts)).
  apply events_readable.
Qed.

End Loop.

Section Runs.

Lemma for_loop_eq (it : list event) (out : list string) :
  for_loop it out =
  (if raises it then Uncaught else Exit0, out ++ filter kept (lines_read it)).
Proof.
  revert out; induction it as [|[l|] it IH]; intros out; simpl.
  - now rewrite app_nil_r.
  - rewrite IH, body_kept. destruct (kept l); simpl.
    + now rewrite <- app_assoc.
    + now rewrite app_nil_r.
  - now rewrite app_nil_r.
Qed.

Lemma main_writes (e : environment) :
  snd (main e) = filter_lines (lines_read (input e)).
Proof. unfold main. now rewrite for_loop_eq, filter_lines_eq. Qed.

Lemma lines_read_yield (ls : list string) : lines_read (map Yield ls) = ls.
Proof. induction ls as [|l ls IH]; simpl; [reflexivity | now rewrite IH]. Qed.

Lemma filter_lines_app (xs ys : list string) :
  filter_lines (xs ++ ys) = filter_lines xs ++ filter_lines ys.
Proof. rewrite !filter_lines_eq. apply filter_app. Qed.

Lemma filter_lines_at (pre post : list string) (l : string) :
  filter_lines (pre ++ l :: post) =
  filter_lines pre ++ (if kept l then [l] else []) ++ filter_lines post.
Proof.
  rewrite filter_lines_app. f_equal.
  rewrite !filter_lines_eq. simpl. now destruct (kept l).
Qed.

Lemma kept_in (l : string) (ls : list string) :
  In l (filter_lines ls) <-> In l ls /\ kept l = true.
Proof. rewrite filter_lines_eq. apply filter_In. Qed.

Lemma Subseq_In {A : Type} (xs ys : list A) :
  Subseq xs ys -> forall x, In x xs -> In x ys.
Proof.
  induction 1 as [|x l1 l2 _ IH|x l1 l2 _ IH]; intros y Hy.
  - exact Hy.
  - destruct Hy as [->|Hy]; [now left | right; now apply IH].
  - right. now apply IH.
Qed.

Lemma Subseq_length {A : Type} (xs ys : list A) :
  Subseq xs ys -> length xs <= length ys.
Proof. induction 1; simpl; lia. Qed.

End Runs.

(** The scenarios of the specification, and one more: a source that ends
    without a line feed gives a last line that stands, on standard output,
    right before the first line of the next source. *)
Example scenarios :
  stdout_bytes (from_stdin (ln "import Foundation")) = ln "import Foundation" /\
  stdout_bytes (from_stdin (ln "import UIKit")) = EmptyString /\
  stdout_bytes (from_stdin (ln "let x = 5")) = ln "let x = 5" /\
  stdout_bytes (from_stdin (ln "  import UIKit")) = ln "  import UIKit" /\
  main (from_stdin EmptyString) = (Exit0, []).
Proof. repeat split. Qed.

Example unterminated_source_joins_next :
  snd (main (mkEnv [Readable "imp"; Readable (ln "ort UIKit")] EmptyString))
  = ["imp"; ln "ort UIKit"] /\
  stdout_bytes (mkEnv [Readable "imp"; Readable (ln "ort UIKit")] EmptyString)
  = ln "import UIKit".
Proof. split; reflexivity. Qed.

Example missing_second_source :
  main (mkEnv [Readable (ln "let x = 5"); Unreadable; Readable (ln "let y = 6")]
              EmptyString)
  = (Uncaught, [ln "let x = 5"]).
Proof. reflexivity. Qed.

(** A carriage return in a named file ends a line, and is read as a line
    feed; on standard input it is a byte like another. *)
Example named_file_splits_at_cr :
  main (mkEnv [Readable ("let x = 5" +:+ String CR (ln "import UIKit"))]
              EmptyString)
  = (Exit0, [ln "let x = 5"]) /\
  main (from_stdin ("let x = 5" +:+ String CR (ln "import UIKit")))
  = (Exit0, ["let x = 5" +:+ String CR (ln "import UIKit")]).
Proof. split; reflexivity. Qed.

(** The name [-] reads standard input where it stands, once. *)
Example dash_reads_stdin_once :
  main (mkEnv [Readable (ln "a"); Dash; Readable (ln "b"); Dash] (ln "s"))
  = (Exit0, [ln "a"; ln "s"; ln "b"]).
Proof. reflexivity. Qed.

Example scenario5 :
  stdout_bytes (from_stdin
    (ln "import Foundation" +:+ ln "import UIKit" +:+ ln "let x = 5"))
  = ln "import Foundation" +:+ ln "let x = 5".
Proof. reflexivity. Qed.

(** ** The properties of the filter *)

(** C1: a line whose content starts with [import] and that does not contain
    [import Foundation] is dropped: its iteration writes nothing, the run is
    the run without the line, and no output holds the line. *)
Theorem import_line_dropped (l : string) :
  startswith (content l) "import" = true ->
  contains "import Foundation" l = false ->
  (forall out, body l out = out) /\
  (forall pre post, filter_lines (pre ++ l :: post) = filter_lines (pre ++ post)) /\
  (forall ls, ~ In l (filter_lines ls)).
Proof.
  intros Hp Hc. rewrite startswith_content in Hp by reflexivity.
  assert (Hk : kept l = false) by now rewrite kept_eq, Hp, Hc.
  repeat split.
  - intros out. rewrite body_kept, Hk. apply app_nil_r.
  - intros pre post. now rewrite filter_lines_at, Hk, filter_lines_app.
  - intros ls Hin. apply kept_in in Hin as [_ Hin]. congruence.
Qed.

Lemma import_line_dropped_witness :
  startswith (content (ln "import UIKit")) "import" = true /\
  contains "import Foundation" (ln "import UIKit") = false /\
  (forall out, body (ln "import UIKit") out = out) /\
  (forall pre post,
     filter_lines (pre ++ ln "import UIKit" :: post) = filter_lines (pre ++ post)) /\
  (forall ls, ~ In (ln "import UIKit") (filter_lines ls)).
Proof.
  split; [reflexivity | split; [reflexivity|]].
  apply (import_line_dropped (ln "import UIKit")); reflexivity.
Defined.

(** C2: a line whose content starts with [import] and that contains
    [import Foundation] at any position is written as it is, once, at its
    place in the output. *)
Theorem foundation_import_kept (l : string) :
  startswith (content l) "import" = true ->
  contains "import Foundation" l = true ->
  (forall out, body l out = out ++ [l]) /\
  (forall pre post,
     filter_lines (pre ++ l :: post) = filter_lines pre ++ l :: filter_lines post).
Proof.
  intros Hp Hc. rewrite startswith_content in Hp by reflexivity.
  assert (Hk : kept l = true) by now rewrite kept_eq, Hp, Hc.
  split.
  - intros out. now rewrite body_kept, Hk.
  - intros pre post. now rewrite filter_lines_at, Hk.
Qed.

Lemma foundation_import_kept_witness :
  startswith (content (ln "import FooFoundation, import Foundation")) "import" = true /\
  contains "import Foundation" (ln "import FooFoundation, import Foundation") = true /\
  (forall out,
     body (ln "import FooFoundation, import Foundation") out
     = out ++ [ln "import FooFoundation, import Foundation"]) /\
  (forall pre post,
     filter_lines (pre ++ ln "import FooFoundation, import Foundation" :: post)
     = filter_lines pre ++ ln "import FooFoundation, import Foundation" :: filter_lines post).
Proof.
  split; [reflexivity | split; [reflexivity|]].
  apply (foundation_import_kept (ln "import FooFoundation, import Foundation"));
    reflexivity.
Defined.

(** C3: a line whose content does not start with [import], an empty or
    whitespace-only line in particular, fails the prefix test and is written
    as it is, once, at its place in the output. *)
Theorem other_line_passed_through (l : string) :
  startswith (content l) "import" = false \/ all_space l = true ->
  startswith l "import" = false /\
  (forall out, body l out = out ++ [l]) /\
  (forall pre post,
     filter_lines (pre ++ l :: post) = filter_lines pre ++ l :: filter_lines post).
Proof.
  intros H.
  assert (Hp : startswith l "import" = false).
  { destruct H as [H|H].
    - now rewrite startswith_content in H.
    - now apply all_space_not_import. }
  assert (Hk : kept l = true) by now rewrite kept_eq, Hp.
  repeat split.
  - exact Hp.
  - intros out. now rewrite body_kept, Hk.
  - intros pre post. now rewrite filter_lines_at, Hk.
Qed.

Lemma other_line_passed_through_witness :
  (startswith (content (ln "let x = 5")) "import" = false /\
   forall out, body (ln "let x = 5") out = out ++ [ln "let x = 5"]) /\
  (all_space (ln EmptyString) = true /\
   forall out, body (ln EmptyString) out = out ++ [ln EmptyString]) /\
  (all_space (ln "   ") = true /\
   forall out, body (ln "   ") out = out ++ [ln "   "]).
Proof.
  split; [|split].
  - split; [reflexivity|].
    apply (other_line_passed_through (ln "let x = 5")). left. reflexivity.
  - split; [reflexivity|].
    apply (other_line_passed_through (ln EmptyString)). right. reflexivity.
  - split; [reflexivity|].
    apply (other_line_passed_through (ln "   ")). right. reflexivity.
Defined.

(** C4: a line with whitespace before the word [import] fails the prefix
    test on the raw line and is written as it is, whatever follows. *)
Theorem indented_import_passed_through (c : ascii) (w rest : string) :
  all_space (String c w) = true ->
  startswith (String c w +:+ "import" +:+ rest) "import" = false /\
  (forall out,
     body (String c w +:+ "import" +:+ rest) out
     = out ++ [String c w +:+ "import" +:+ rest]) /\
  (forall pre post,
     filter_lines (pre ++ (String c w +:+ "import" +:+ rest) :: post)
     = filter_lines pre ++ (String c w +:+ "import" +:+ rest) :: filter_lines post).
Proof.
  intros Hs.
  assert (Hp : startswith (String c w +:+ "import" +:+ rest) "import" = false).
  { simpl in Hs |- *. apply andb_true_iff in Hs as [Hc _].
    destruct (Ascii.eqb c "i") eqn:E; [|reflexivity].
    apply Ascii.eqb_eq in E. subst c. discriminate. }
  assert (Hk : kept (String c w +:+ "import" +:+ rest) = true)
    by now rewrite kept_eq, Hp.
  repeat split.
  - exact Hp.
  - intros out. now rewrite body_kept, Hk.
  - intros pre post. now rewrite filter_lines_at, Hk.
Qed.

Lemma indented_import_passed_through_witness :
  all_space "  " = true /\
  startswith (ln "  import UIKit") "import" = false /\
  (forall out, body (ln "  import UIKit") out = out ++ [ln "  import UIKit"]) /\
  (forall pre post,
     filter_lines (pre ++ ln "  import UIKit" :: post)
     = filter_lines pre ++ ln "  import UIKit" :: filter_lines post).
Proof.
  split; [reflexivity|].
  apply (indented_import_passed_through " " " " (ln " UIKit")). reflexivity.
Defined.

(** C5: what a run writes is an order-preserving selection of the lines it
    read, so no line is moved, merged or repeated; two kept lines stand in
    the output in the order of the input, with between them what the lines
    between them gave. *)
Theorem output_order_preserved (ls : list string) :
  Subseq (filter_lines ls) ls /\
  length (filter_lines ls) <= length ls /\
  (forall e, Subseq (snd (main e)) (lines_read (input e))) /\
  (forall pre l1 mid l2 post,
     ls = pre ++ l1 :: mid ++ l2 :: post ->
     kept l1 = true -> kept l2 = true ->
     filter_lines ls
     = filter_lines pre ++ l1 :: filter_lines mid ++ l2 :: filter_lines post).
Proof.
  assert (Hsub : forall xs, Subseq (filter_lines xs) xs).
  { intros xs. rewrite filter_lines_eq. apply filter_Subseq. }
  repeat split.
  - apply Hsub.
  - apply Subseq_length, Hsub.
  - intros e. rewrite main_writes. apply Hsub.
  - intros pre l1 mid l2 post -> H1 H2.
    rewrite filter_lines_at, H1. simpl.
    now rewrite filter_lines_at, H2.
Qed.

Lemma output_order_preserved_witness :
  kept (ln "import Foundation") = true /\ kept (ln "let x = 5") = true /\
  filter_lines [ln "import Foundation"; ln "import UIKit"; ln "let x = 5"]
  = [ln "import Foundation"; ln "let x = 5"].
Proof.
  split; [reflexivity | split; [reflexivity|]].
  exact (proj2 (proj2 (proj2 (output_order_preserved
    [ln "import Foundation"; ln "import UIKit"; ln "let x = 5"])))
    [] (ln "import Foundation") [ln "import UIKit"] (ln "let x = 5") []
    eq_refl eq_refl eq_refl).
Defined.




(** C7: filtering the output of the filter gives that output again, every
    line written being one that does not start with [import] or one that
    contains [import Foundation]; and a run whose standard input is the
    standard output of a run on one text stream writes the same bytes. *)
Theorem filter_idempotent (ls : list string) :
  filter_lines (filter_lines ls) = filter_lines ls /\
  Forall (fun l => startswith l "import" = false \/
                   contains "import Foundation" l = true) (filter_lines ls) /\
  (forall text,
     stdout_bytes (from_stdin (stdout_bytes (from_stdin text)))
     = stdout_bytes (from_stdin text)).
Proof.
  assert (Hidem : forall xs, filter kept (filter kept xs) = filter kept xs).
  { intros xs. apply forallb_filter_id, forallb_filter. }
  repeat split.
  - rewrite !filter_lines_eq. apply Hidem.
  - apply Forall_forall. intros l Hl. apply kept_in in Hl as [_ Hk].
    rewrite kept_eq in Hk. apply orb_true_iff in Hk as [Hk|Hk]; [left | now right].
    now apply negb_true_iff.
  - intros text.
    assert (Hrun : forall t, stdout_bytes (from_stdin t) = join (filter kept (readlines t))).
    { intros t. unfold stdout_bytes.
      now rewrite main_writes, filter_lines_eq, input_stdin, lines_read_yield. }
    rewrite !Hrun.
    rewrite readlines_join by apply well_split_filter, well_split_readlines.
    now rewrite Hidem.
Qed.

(** C8: the loop keeps no state between lines: what an iteration writes for
    a line is what a run on that line alone writes, whatever was written
    before and whatever lines stand around it, and the run on two sequences
    one after the other writes what the two runs write, one after the
    other. *)
Theorem filter_per_line (xs ys : list string) :
  filter_lines (xs ++ ys) = filter_lines xs ++ filter_lines ys /\
  (forall l out, body l out = out ++ filter_lines [l]) /\
  (forall pre l post,
     filter_lines (pre ++ l :: post)
     = filter_lines pre ++ filter_lines [l] ++ filter_lines post) /\
  (forall it out, snd (for_loop it out) = out ++ snd (for_loop it [])) /\
  (forall ls, filter_lines ls = flat_map (fun l => filter_lines [l]) ls).
Proof.
  repeat split.
  - apply filter_lines_app.
  - intros l out. rewrite body_kept, filter_lines_eq. simpl. now destruct (kept l).
  - intros pre l post. rewrite filter_lines_at. do 2 f_equal.
    rewrite filter_lines_eq. simpl. now destruct (kept l).
  - intros it out. now rewrite !for_loop_eq.
  - intros ls. induction ls as [|l ls IH]; [reflexivity|].
    change (l :: ls) with ([l] ++ ls). rewrite filter_lines_app.
    simpl. now rewrite IH.
Qed.

(** C9: when a source cannot be opened the run ends there with the error,
    the sources after it are not read, and standard output holds what the
    lines of the sources before it gave; the same holds for an error raised
    between two lines, and for a source of which the reading raises after
    some lines; a run over lines alone never ends with an error. *)
Theorem unreadable_source_aborts (before : list string)
  (after : list source) (sin : string) :
  main (mkEnv (map Readable before ++ Unreadable :: after) sin)
  = (Uncaught, filter_lines (flat_map readfile before)) /\
  (forall ls rest out,
     for_loop (map Yield ls ++ IOError :: rest) out
     = (Uncaught, out ++ filter_lines ls)) /\
  (forall ls out, fst (for_loop (map Yield ls) out) = Exit0) /\
  (forall texts,
     fst (main (mkEnv (map Readable texts) sin)) = Exit0) /\
  (forall given,
     main (mkEnv (map Readable before ++ Garbled given :: after) sin)
     = (Uncaught, filter_lines (flat_map readfile before ++ given))).
Proof.
  assert (Hmid : forall ls rest out,
            for_loop (map Yield ls ++ IOError :: rest) out
            = (Uncaught, out ++ filter_lines ls)).
  { intros ls rest out. rewrite for_loop_lines, filter_lines_eq. reflexivity. }
  assert (Hin : forall src,
            input (mkEnv (map Readable before ++ src :: after) sin)
            = map Yield (flat_map readfile before)
              ++ events (src :: after) sin).
  { intros src. unfold input. cbn [argv stdin].
    destruct (map Readable before ++ src :: after) as [|s0 ss] eqn:E.
    - destruct before; discriminate.
    - rewrite <- E. apply events_readable_app. }
  split; [|split; [|split; [|split]]].
  - unfold main. rewrite Hin. cbn [events events_of fst snd app].
    now rewrite Hmid.
  - exact Hmid.
  - intros ls out. now rewrite for_loop_all_lines.
  - intros texts. unfold main. destruct texts as [|t ts].
    + change (mkEnv (map Readable []) sin) with (from_stdin sin).
      now rewrite input_stdin, for_loop_all_lines.
    + now rewrite input_files, for_loop_all_lines.
  - intros given. unfold main. rewrite Hin. cbn [events events_of fst snd].
    rewrite <- !app_assoc, app_assoc, <- map_app. cbn [app].
    now rewrite Hmid.
Qed.

(** C10: the prefix test looks at six characters and at no word boundary:
    a line that starts with [import] followed by anything, a letter
    included, passes it, and is dropped when it does not contain
    [import Foundation]. *)
Theorem prefix_without_word_boundary (rest : string) :
  contains "import Foundation" ("import" +:+ rest) = false ->
  startswith ("import" +:+ rest) "import" = true /\
  (forall out, body ("import" +:+ rest) out = out) /\
  (forall ls, ~ In ("import" +:+ rest) (filter_lines ls)).
Proof.
  intros Hc.
  assert (Hp : startswith ("import" +:+ rest) "import" = true)
    by apply startswith_app.
  assert (Hk : kept ("import" +:+ rest) = false) by now rewrite kept_eq, Hp, Hc.
  split; [exact Hp | split].
  - intros out. rewrite body_kept, Hk. apply app_nil_r.
  - intros ls Hin. apply kept_in in Hin as [_ Hin]. congruence.
Qed.

Lemma prefix_without_word_boundary_witness :
  (contains "import Foundation" (ln "important note") = false /\
   forall out, body (ln "important note") out = out) /\
  (contains "import Foundation" (ln "imports") = false /\
   forall out, body (ln "imports") out = out).
Proof.
  split; (split; [reflexivity|]).
  - apply (prefix_without_word_boundary (ln "ant note")). reflexivity.
  - apply (prefix_without_word_boundary (ln "s")). reflexivity.
Defined.

(** ** Further properties of the run *)

Section Bytes.

Lemma length_append (a b : string) :
  String.length (a +:+ b) = String.length a + String.length b.
Proof. induction a as [|c a IH]; simpl; [reflexivity | now rewrite IH]. Qed.

Lemma readlines_nonempty (c : ascii) (t : string) : readlines (String c t) <> [].
Proof.
  intros H. pose proof (join_readlines (String c t)) as J.
  rewrite H in J. discriminate.
Qed.

Lemma readlines_app_lf (a b : string) :
  ends_lf a = true -> readlines (a +:+ b) = readlines a ++ readlines b.
Proof.
  induction a as [|c t IH]; [reflexivity|].
  destruct t as [|c' t'].
  - simpl. intros Hc. now rewrite Hc.
  - intros H. change (ends_lf (String c' t') = true) in H.
    specialize (IH H).
    change (readlines (String c (String c' t' +:+ b))
            = readlines (String c (String c' t')) ++ readlines b).
    cbn [readlines] in IH |- *. cbn [readlines]. 
    destruct (Ascii.eqb c LF).
    + now rewrite IH.
    + rewrite IH.
      pose proof (readlines_nonempty c' t') as Hne. cbn [readlines] in Hne.
      destruct (if Ascii.eqb c' LF
                then String c' EmptyString :: readlines t'
                else match readlines t' with
                     | [] => [String c' EmptyString]
                     | l :: ls => String c' l :: ls
                     end) as [|l ls]; [congruence | reflexivity].
Qed.

Lemma flat_map_readlines_cat (texts : list string) :
  cat_safe texts = true -> flat_map readlines texts = readlines (join texts).
Proof.
  induction texts as [|t rest IH]; [reflexivity|].
  destruct rest as [|t' rest'].
  - intros _. simpl. now rewrite app_nil_r, append_empty_r.
  - intros H. change (ends_lf t && cat_safe (t' :: rest') = true) in H.
    apply andb_true_iff in H as [Ht Hrest].
    change (readlines t ++ flat_map readlines (t' :: rest')
            = readlines (t +:+ join (t' :: rest'))).
    now rewrite (readlines_app_lf _ _ Ht), (IH Hrest).
Qed.

Lemma stdin_run (text : string) :
  snd (main (from_stdin text)) = filter kept (readlines text).
Proof.
  now rewrite main_writes, filter_lines_eq, input_stdin, lines_read_yield.
Qed.

Lemma files_run (t : string) (ts : list string) (sin : string) :
  main (mkEnv (map Readable (t :: ts)) sin)
  = (Exit0, filter kept (flat_map readfile (t :: ts))).
Proof.
  unfold main. now rewrite input_files, for_loop_all_lines.
Qed.

Lemma universal_newlines_nonempty (c : ascii) (t : string) :
  universal_newlines (String c t) <> EmptyString.
Proof.
  revert c; induction t as [|c' t IH]; intros c; cbn [universal_newlines].
  - destruct (Ascii.eqb c CR); discriminate.
  - destruct (Ascii.eqb c CR); [|discriminate].
    destruct (Ascii.eqb c' LF); [apply IH | discriminate].
Qed.

Lemma ends_lf_grow (c : ascii) (t : string) :
  t <> EmptyString -> ends_lf (String c t) = ends_lf t.
Proof. destruct t; [congruence | reflexivity]. Qed.

Lemma ends_lf_universal_newlines (t : string) :
  ends_lf t = true -> ends_lf (universal_newlines t) = true.
Proof.
  induction t as [|c t IH]; [reflexivity|].
  destruct t as [|c' t'].
  - cbn. intros Hc. destruct (Ascii.eqb c CR); [reflexivity|].
    cbn. exact Hc.
  - intros H. change (ends_lf (String c' t') = true) in H. specialize (IH H).
    pose proof (universal_newlines_nonempty c' t') as Hne.
    change (universal_newlines (String c (String c' t')))
      with (if Ascii.eqb c CR
            then if Ascii.eqb c' LF then universal_newlines (String c' t')
                 else String LF (universal_newlines (String c' t'))
            else String c (universal_newlines (String c' t'))).
    destruct (Ascii.eqb c CR); [destruct (Ascii.eqb c' LF)|];
      rewrite ?(ends_lf_grow _ _ Hne); exact IH.
Qed.

Lemma cat_safe_universal_newlines (texts : list string) :
  cat_safe texts = true -> cat_safe (map universal_newlines texts) = true.
Proof.
  induction texts as [|t rest IH]; [reflexivity|].
  destruct rest as [|t' rest']; [reflexivity|].
  intros H. change (ends_lf t && cat_safe (t' :: rest') = true) in H.
  apply andb_true_iff in H as [Ht Hrest].
  change (ends_lf (universal_newlines t)
          && cat_safe (map universal_newlines (t' :: rest')) = true).
  now rewrite (ends_lf_universal_newlines _ Ht), (IH Hrest).
Qed.

Lemma flat_map_readfile_eq (texts : list string) :
  flat_map readfile texts = flat_map readlines (map universal_newlines texts).
Proof.
  induction texts as [|t ts IH]; simpl; [reflexivity | now rewrite IH].
Qed.

Lemma map_universal_newlines_id (texts : list string) :
  forallb no_cr texts = true -> map universal_newlines texts = texts.
Proof.
  induction texts as [|t ts IH]; [reflexivity|].
  simpl. intros H. apply andb_true_iff in H as [Ht Hts].
  now rewrite (universal_newlines_id _ Ht), (IH Hts).
Qed.

Lemma rerun_well_split (ls : list string) :
  well_split ls = true ->
  stdout_bytes (from_stdin (join (filter kept ls))) = join (filter kept ls).
Proof.
  intros H. unfold stdout_bytes. rewrite stdin_run.
  rewrite readlines_join by now apply well_split_filter.
  f_equal. apply forallb_filter_id, forallb_filter.
Qed.

Lemma dropped_nonempty (l : string) : kept l = false -> 0 < String.length l.
Proof.
  destruct l as [|c t]; [discriminate | simpl; lia].
Qed.

Lemma filter_bytes_le (ls : list string) :
  String.length (join (filter kept ls)) <= String.length (join ls).
Proof.
  induction ls as [|l ls IH]; simpl; [lia|].
  destruct (kept l); simpl; rewrite ?length_append; lia.
Qed.

Lemma filter_bytes_lt (ls : list string) :
  forallb kept ls = false ->
  String.length (join (filter kept ls)) < String.length (join ls).
Proof.
  induction ls as [|l ls IH]; simpl; [discriminate|].
  destruct (kept l) eqn:Hk; simpl; rewrite length_append.
  - intros H. specialize (IH H). rewrite length_append. lia.
  - intros _. pose proof (dropped_nonempty l Hk). pose proof (filter_bytes_le ls). lia.
Qed.

End Bytes.

(** X1: an iteration leaves standard output as it was exactly when the
    line is [import] followed by something and [import Foundation] occurs
    at no position of the line. *)
Theorem drop_decision_meaning (l : string) (out : list string) :
  body l out = out <->
  (exists r, l = "import" +:+ r) /\
  ~ (exists a b, l = a +:+ "import Foundation" +:+ b).
Proof.
  rewrite body_kept, <- startswith_spec, <- contains_spec.
  destruct (kept l) eqn:Hk; rewrite kept_eq in Hk.
  - split.
    + intros H. apply (f_equal (@length string)) in H.
      rewrite length_app in H. simpl in H. lia.
    + intros [Hp Hc]. rewrite Hp in Hk. simpl in Hk. contradiction.
  - apply orb_false_iff in Hk as [Hp Hc]. apply negb_false_iff in Hp.
    split.
    + intros _. split; [exact Hp | now rewrite Hc].
    + intros _. apply app_nil_r.
Qed.

(** X2: a line that is kept occurs in the output as many times as in the
    input, and a line that is dropped occurs in it no time. *)
Theorem kept_line_multiplicity (ls : list string) (l : string) :
  count_occ string_dec (filter_lines ls) l
  = if kept l then count_occ string_dec ls l else 0.
Proof.
  rewrite filter_lines_eq. induction ls as [|x ls IH]; simpl.
  - now destruct (kept l).
  - destruct (string_dec x l) as [->|Hne].
    + destruct (kept l) eqn:Hk; simpl.
      * destruct (string_dec l l); [now rewrite IH | congruence].
      * exact IH.
    + destruct (kept x); simpl; [|exact IH].
      destruct (string_dec x l); [congruence | exact IH].
Qed.

(** X3: a line in which [import Foundation] occurs is written whatever
    stands before and after the occurrence: the test sees no word boundary
    after [Foundation] and no comment before [import]. *)
Theorem foundation_anywhere_kept (a b : string) (out : list string) :
  body (a +:+ "import Foundation" +:+ b) out
  = out ++ [a +:+ "import Foundation" +:+ b].
Proof.
  rewrite body_kept, kept_eq.
  assert (Hc : contains "import Foundation" (a +:+ "import Foundation" +:+ b) = true).
  { apply contains_spec. now exists a, b. }
  rewrite Hc, orb_true_r. reflexivity.
Qed.

(** X4: a run on one text stream writes the text it read, byte for byte,
    exactly when no line of the text is dropped. *)
Theorem unchanged_iff_nothing_dropped (text : string) :
  stdout_bytes (from_stdin text) = text <->
  forallb kept (readlines text) = true.
Proof.
  unfold stdout_bytes. rewrite stdin_run. split.
  - intros H. destruct (forallb kept (readlines text)) eqn:E; [reflexivity|].
    apply filter_bytes_lt in E. rewrite H, join_readlines in E. lia.
  - intros H. rewrite (forallb_filter_id _ _ H). apply join_readlines.
Qed.

(** X5: a run never writes more bytes than the lines it read hold, whether
    it ends normally or with an error. *)
Theorem output_never_longer (e : environment) :
  String.length (stdout_bytes e)
  <= String.length (join (lines_read (input e))) /\
  (forall text,
     String.length (stdout_bytes (from_stdin text)) <= String.length text).
Proof.
  split.
  - unfold stdout_bytes. rewrite main_writes, filter_lines_eq.
    apply filter_bytes_le.
  - intros text. unfold stdout_bytes. rewrite stdin_run.
    rewrite <- (join_readlines text) at 2. apply filter_bytes_le.
Qed.

(** X6: a run over several named files that open and decode writes what
    the runs over each of the files alone write, one after the other, and
    what standard input holds plays no part in it. *)
Theorem files_run_is_concatenation (t : string) (ts : list string) (sin : string) :
  snd (main (mkEnv (map Readable (t :: ts)) sin))
  = flat_map (fun x => snd (main (mkEnv [Readable x] sin))) (t :: ts) /\
  stdout_bytes (mkEnv (map Readable (t :: ts)) sin)
  = join (map (fun x => stdout_bytes (mkEnv [Readable x] sin)) (t :: ts)) /\
  (forall sin',
     main (mkEnv (map Readable (t :: ts)) sin)
     = main (mkEnv (map Readable (t :: ts)) sin')).
Proof.
  assert (Hone : forall x, snd (main (mkEnv [Readable x] sin))
                           = filter kept (readfile x)).
  { intros x. change [Readable x] with (map Readable [x]).
    rewrite files_run. cbn [snd flat_map]. now rewrite app_nil_r. }
  assert (H : forall xs,
            filter kept (flat_map readfile xs)
            = flat_map (fun x => snd (main (mkEnv [Readable x] sin))) xs).
  { induction xs as [|x xs IH]; [reflexivity|].
    simpl. now rewrite filter_app, IH, Hone. }
  split; [|split].
  - now rewrite files_run, <- H.
  - unfold stdout_bytes at 1. rewrite files_run. cbn [snd]. rewrite H.
    generalize (t :: ts). intros xs.
    induction xs as [|x xs IH]; [reflexivity|].
    simpl. now rewrite join_app, IH.
  - intros sin'. now rewrite !files_run.
Qed.

(** X7: when no named file holds a carriage return and every one but the
    last is empty or ends with a line feed, the run over the files is the
    run over their concatenation given on standard input. *)
Theorem files_run_is_run_on_cat (t : string) (ts : list string) (sin : string) :
  forallb no_cr (t :: ts) = true ->
  cat_safe (t :: ts) = true ->
  main (mkEnv (map Readable (t :: ts)) sin) = main (from_stdin (join (t :: ts))).
Proof.
  intros Hcr H.
  rewrite files_run, flat_map_readfile_eq, (map_universal_newlines_id _ Hcr).
  rewrite (flat_map_readlines_cat _ H).
  unfold main at 1. now rewrite input_stdin, for_loop_all_lines.
Qed.

Lemma files_run_is_run_on_cat_witness :
  forallb no_cr [ln "import UIKit"; "let x = 5"] = true /\
  cat_safe [ln "import UIKit"; "let x = 5"] = true /\
  main (mkEnv (map Readable [ln "import UIKit"; "let x = 5"]) "ignored")
  = main (from_stdin (join [ln "import UIKit"; "let x = 5"])).
Proof.
  split; [reflexivity | split; [reflexivity|]].
  apply (files_run_is_run_on_cat (ln "import UIKit") ["let x = 5"] "ignored");
    reflexivity.
Defined.

(** X8: when every source but the last is empty or ends with a line feed,
    a second run that reads the standard output of the first writes the
    same bytes again. *)
Theorem rerun_on_output (texts : list string) (sin : string) :
  cat_safe texts = true ->
  stdout_bytes (from_stdin (stdout_bytes (mkEnv (map Readable texts) sin)))
  = stdout_bytes (mkEnv (map Readable texts) sin).
Proof.
  intros H. destruct texts as [|t ts].
  - change (mkEnv (map Readable []) sin) with (from_stdin sin).
    unfold stdout_bytes at 2 3. rewrite stdin_run.
    apply rerun_well_split, well_split_readlines.
  - unfold stdout_bytes at 2 3. rewrite files_run. cbn [snd].
    rewrite flat_map_readfile_eq.
    rewrite (flat_map_readlines_cat _ (cat_safe_universal_newlines _ H)).
    apply rerun_well_split, well_split_readlines.
Qed.

Lemma rerun_on_output_witness :
  cat_safe [ln "import Foundation" +:+ ln "import UIKit"; "let x = 5"] = true /\
  stdout_bytes (from_stdin (stdout_bytes (mkEnv
    (map Readable [ln "import Foundation" +:+ ln "import UIKit"; "let x = 5"])
    EmptyString)))
  = stdout_bytes (mkEnv
    (map Readable [ln "import Foundation" +:+ ln "import UIKit"; "let x = 5"])
    EmptyString).
Proof.
  split; [reflexivity|].
  apply (rerun_on_output
    [ln "import Foundation" +:+ ln "import UIKit"; "let x = 5"] EmptyString).
  reflexivity.
Defined.
